(** * A shallow embedding of [emitc_mhlo.h] (namespace [mhlo])

    The header is a catalog of C++ function templates over [std::vector].
    Vectors are lists; a template parameter [T] is a Rocq type (or, for the
    integral types, a record giving signedness and width).  A call either
    returns normally, throws a standard exception, or has undefined
    behaviour (an out-of-range [operator[]], an integer division by zero,
    a signed overflow); [outcome] records which. *)

From Stdlib Require Import ZArith Lia Floats.
From stdpp Require Import base list.

(** ** C++ evaluation outcomes *)

(** The standard exceptions a call of this header can raise. *)
Inductive cxx_exception :=
  | length_error.    (** [std::vector(n)] with [n > max_size()] *)

Inductive outcome (A : Type) : Type :=
  | Ok (a : A)
  | Throw (e : cxx_exception)
  | Undefined.
Arguments Ok {A} a.
Arguments Throw {A} e.
Arguments Undefined {A}.

Global Instance outcome_ret : MRet outcome := fun A a => Ok a.
Global Instance outcome_bind : MBind outcome := fun A B k m =>
  match m with
  | Ok a => k a
  | Throw e => Throw e
  | Undefined => Undefined
  end.

(** ** [std::vector] primitives *)

(** [v[i]] read: undefined out of range. *)
Definition at_ {A} (v : list A) (i : nat) : outcome A :=
  match v !! i with
  | Some a => Ok a
  | None => Undefined
  end.

(** [v[i] = a] write: undefined out of range. *)
Definition store {A} (v : list A) (i : nat) (a : A) : outcome (list A) :=
  if decide (i < length v) then Ok (<[i := a]> v) else Undefined.

(** [std::transform(x.begin(), x.end(), y.begin(), z.begin(), op)]:
    for [i = 0 .. x.size()-1], [z[i] = op(x[i], y[i])].  The second input
    range is only given by its start, so [y[i]] is read whatever [y.size()]
    is; [op] itself may be undefined (integer division by zero). *)
Fixpoint transform_loop {A B C} (op : A -> B -> outcome C)
    (x : list A) (y : list B) (z : list C) (i k : nat) : outcome (list C) :=
  match k with
  | O => Ok z
  | S k' =>
      a ← at_ x i; b ← at_ y i; c ← op a b; z' ← store z i c;
      transform_loop op x y z' (S i) k'
  end.

Definition transform {A B C} (op : A -> B -> outcome C)
    (x : list A) (y : list B) (z : list C) : outcome (list C) :=
  transform_loop op x y z 0 (length x).

(** ** Binary elementwise ops *)

Section Binary.
Context {T : Type}.

(** [std::vector<T> z(x); std::transform(..., std::plus<>()); return z;]
    The operator of [T] is a parameter: [std::plus<>], [std::minus<>],
    [std::multiplies<>] or [std::divides<>] of the element type. *)
Definition binary_elementwise (op : T -> T -> outcome T) (x y : list T)
    : outcome (list T) :=
  let z := x in
  transform op x y z.

Variable plus minus multiplies : T -> T -> T.

(** AddOp *)
Definition add (x y : list T) : outcome (list T) :=
  binary_elementwise (fun a b => Ok (plus a b)) x y.

(** SubOp *)
Definition sub (x y : list T) : outcome (list T) :=
  binary_elementwise (fun a b => Ok (minus a b)) x y.

(** MulOp *)
Definition mul (x y : list T) : outcome (list T) :=
  binary_elementwise (fun a b => Ok (multiplies a b)) x y.

(** DivOp, over the element type's [std::divides<>]. *)
Definition div (divides : T -> T -> outcome T) (x y : list T)
    : outcome (list T) :=
  binary_elementwise divides x y.
End Binary.

(** ** CompareOp
    [std::vector<bool> z(x.size()); std::transform(..., Compare<T>());]
    [Compare] is the caller's predicate template ([std::equal_to], ...). *)
Definition compare {T} (Compare : T -> T -> bool) (x y : list T)
    : outcome (list bool) :=
  let z := replicate (length x) false in
  transform (fun a b => Ok (Compare a b)) x y z.

(** ** SelectOp *)
Fixpoint select_loop {T} (s : list bool) (x y z : list T) (i k : nat)
    : outcome (list T) :=
  match k with
  | O => Ok z
  | S k' =>
      c ← at_ s i;
      v ← (if (c : bool) then at_ x i else at_ y i);
      z' ← store z i v;
      select_loop s x y z' (S i) k'
  end.

(** [std::vector<T> z(x.size())] value-initialises its elements: [dflt] is
    [T()]. *)
Definition select {T} (dflt : T) (s : list bool) (x y : list T)
    : outcome (list T) :=
  let z := replicate (length x) dflt in
  select_loop s x y z 0 (length z).

(** ** AbsOp, complex to real *)
Record complex (T : Type) := mk_complex { re : T; im : T }.
Arguments mk_complex {T} re im.
Arguments re {T} c.
Arguments im {T} c.

Fixpoint abs_loop {T} (cabs : complex T -> T) (x : list (complex T))
    (z : list T) (i k : nat) : outcome (list T) :=
  match k with
  | O => Ok z
  | S k' => c ← at_ x i; z' ← store z i (cabs c); abs_loop cabs x z' (S i) k'
  end.

(** [std::vector<T> z; z.reserve(x.size());
     for (size_t i = 0; i < z.size(); i++) z[i] = std::abs(x[i]);]
    [reserve] changes the capacity, not the size: [z] stays empty.
    [cabs] is [std::abs] on [std::complex<T>]. *)
Definition abs_complex {T} (cabs : complex T -> T) (x : list (complex T))
    : outcome (list T) :=
  let z : list T := [] in
  abs_loop cabs x z 0 (length z).

(** ** BroadcastInDimOp: [n] times [z.insert(z.end(), x.begin(), x.end())]. *)
Fixpoint broadcast_loop {T} (x z : list T) (k : nat) : list T :=
  match k with
  | O => z
  | S k' => broadcast_loop x (z ++ x) k'
  end.

Definition broadcast_in_dim {T} (x : list T) (n : nat) : list T :=
  broadcast_loop x [] n.

(** ** ConcatenateOp: [std::vector<T> z(x); z.insert(z.end(), y...)]. *)
Definition concatenate {T} (x y : list T) : list T :=
  let z := x in z ++ y.

(** ** Integral element types *)

Local Open Scope Z_scope.

(** An integral [T]: [std::numeric_limits<T>::is_signed] and [digits]. *)
Record int_type := mk_int_type { signed : bool; bits : Z }.

Definition int8_t := mk_int_type true 8.
Definition int16_t := mk_int_type true 16.
Definition int32_t := mk_int_type true 32.
Definition int64_t := mk_int_type true 64.
Definition uint8_t := mk_int_type false 8.
Definition uint32_t := mk_int_type false 32.
Definition uint64_t := mk_int_type false 64.

(** [std::numeric_limits<T>::min()] and [max()]. *)
Definition int_min (t : int_type) : Z :=
  if signed t then - 2 ^ (bits t - 1) else 0.
Definition int_max (t : int_type) : Z :=
  if signed t then 2 ^ (bits t - 1) - 1 else 2 ^ bits t - 1.

Definition in_range (t : int_type) (z : Z) : bool :=
  (int_min t <=? z) && (z <=? int_max t).

(** Integral conversion to [T]: modulo [2^bits]. *)
Definition cast (t : int_type) (z : Z) : Z :=
  if signed t
  then (z + 2 ^ (bits t - 1)) mod 2 ^ bits t - 2 ^ (bits t - 1)
  else z mod 2 ^ bits t.

(** Operands narrower than [int] are promoted to [int]. *)
Definition promoted (t : int_type) : int_type :=
  if bits t <? 32 then int32_t else t.

(** [std::divides<>{}(a, b)] on an integral [T]: division by zero, and a
    signed quotient that overflows the promoted type, are undefined. *)
Definition int_divides (t : int_type) (a b : Z) : outcome Z :=
  if b =? 0 then Undefined
  else
    let q := Z.quot a b in
    if in_range (promoted t) q then Ok (cast t q) else Undefined.

(** [std::divides<>{}(a, b)] on [double]: IEEE754 division. *)
Definition float_divides (a b : float) : outcome float :=
  Ok (PrimFloat.div a b).

(** [std::numeric_limits<double>::min()], the least positive normal value,
    and [std::numeric_limits<double>::max()]. *)
Definition float_min : float := 0x1p-1022%float.
Definition float_max : float := 0x1.fffffffffffffp+1023%float.

(** [high - 1] on [T]: computed in the promoted type, converted back. *)
Definition minus_one (t : int_type) (high : Z) : outcome Z :=
  let p := promoted t in
  if signed p && negb (in_range p (high - 1)) then Undefined
  else Ok (cast t (high - 1)).

(** ** RngUniformOp and RngBitGeneratorOp *)

(** [std::accumulate(shape.begin(), shape.end(), 1,
                     std::multiplies<int64_t>())]: the initial value [1] is
    an [int], so the accumulator has type [int]; each [int64_t] product is
    converted back to [int]. *)
Definition mul_int64 (a b : Z) : outcome Z :=
  let p := a * b in if in_range int64_t p then Ok p else Undefined.

Definition accumulate_shape (shape : list Z) : outcome Z :=
  foldl (fun acc d => a ← acc; p ← mul_int64 a d; Ok (cast int32_t p))
    (Ok 1) shape.

(** [std::vector<T> result(n)] with [n] an [int64_t]: converted to
    [size_t], a negative [n] exceeds [max_size()]. *)
Definition vector_sized {A} (dflt : A) (n : Z) : outcome (list A) :=
  if n <? 0 then Throw length_error else Ok (replicate (Z.to_nat n) dflt).

Section Random.
(** [std::mt19937 gen(rd())]: the state of the engine, seeded from
    [std::random_device]. *)
Context {G : Type}.
(** [std::uniform_int_distribution<T>(a, b)(gen)] *)
Variable uniform_int : Z -> Z -> G -> Z * G.
(** [std::uniform_real_distribution<T>(a, b)(gen)] *)
Variable uniform_real : float -> float -> G -> float * G.

(** [for (size_t i = 0; i < n; i++) result[i] = distribution(gen);] *)
Fixpoint sample_loop {A} (draw : G -> A * G) (result : list A) (g : G)
    (i k : nat) : outcome (list A) :=
  match k with
  | O => Ok result
  | S k' =>
      let '(v, g') := draw g in
      result' ← store result i v;
      sample_loop draw result' g' (S i) k'
  end.

(** Integral [T]: the distribution is built on [[low, high - 1]];
    [uniform_int_distribution] requires [a <= b]. *)
Definition rng_uniform_int (t : int_type) (low high : Z) (shape : list Z)
    (g : G) : outcome (list Z) :=
  n ← accumulate_shape shape;
  b ← minus_one t high;
  if negb (low <=? b) then Undefined
  else
    result ← vector_sized 0%Z n;
    sample_loop (uniform_int low b) result g 0%nat (Z.to_nat n).

(** Floating [T] ([double]): [uniform_real_distribution] requires
    [a <= b] and [b - a <= max()]. *)
Definition rng_uniform_real (low high : float) (shape : list Z) (g : G)
    : outcome (list float) :=
  n ← accumulate_shape shape;
  if negb (PrimFloat.leb low high
           && PrimFloat.leb (PrimFloat.sub high low) float_max)
  then Undefined
  else
    result ← vector_sized 0%float n;
    sample_loop (uniform_real low high) result g 0%nat (Z.to_nat n).

(** [rng_bit_generator<T, Algorithm, N>(state)] for integral [T]. *)
Definition rng_bit_generator_int (t : int_type) (Algorithm : Z) (N : Z)
    (state : list Z) (g : G) : outcome (list Z * list Z) :=
  let newState := state in
  let shape := [N] in
  let min := int_min t in
  let max := int_max t in
  resultVector ← rng_uniform_int t min max shape g;
  Ok (newState, resultVector).

(** [rng_bit_generator<double, Algorithm, N>(state)]. *)
Definition rng_bit_generator_real (Algorithm : Z) (N : Z)
    (state : list Z) (g : G) : outcome (list Z * list float) :=
  let newState := state in
  let shape := [N] in
  let min := float_min in
  let max := float_max in
  resultVector ← rng_uniform_real min max shape g;
  Ok (newState, resultVector).
End Random.

(** ** Unary elementwise ops *)

(** [for (size_t i = 0; i < z.size(); i++) z[i] = f(x[i]);] *)
Fixpoint unary_loop {A B} (f : A -> B) (x : list A) (z : list B) (i k : nat)
    : outcome (list B) :=
  match k with
  | O => Ok z
  | S k' => a ← at_ x i; z' ← store z i (f a); unary_loop f x z' (S i) k'
  end.

(** [std::vector<T> z(x); for (...) z[i] = f(x[i]); return z;], the shape of
    [abs] (real), [cos], [sin] and [sqrt]; [f] is [std::abs], [std::cos],
    [std::sin] or [std::sqrt] of the element type. *)
Definition unary_elementwise {T} (f : T -> T) (x : list T) : outcome (list T) :=
  let z := x in
  unary_loop f x z 0%nat (length z).

(** AbsOp on a real element type. *)
Definition abs {T} (std_abs : T -> T) (x : list T) : outcome (list T) :=
  unary_elementwise std_abs x.

(** CosOp *)
Definition cos {T} (std_cos : T -> T) (x : list T) : outcome (list T) :=
  unary_elementwise std_cos x.

(** SinOp *)
Definition sin {T} (std_sin : T -> T) (x : list T) : outcome (list T) :=
  unary_elementwise std_sin x.

(** SqrtOp *)
Definition sqrt {T} (std_sqrt : T -> T) (x : list T) : outcome (list T) :=
  unary_elementwise std_sqrt x.


(** ** MaxOp, MinOp, PowOp *)

(** [std::max(a, b)] is [(a < b) ? b : a]; [std::min(a, b)] is
    [(b < a) ? b : a]; [lt] is the element type's [<]. *)
Definition std_max {T} (lt : T -> T -> bool) (a b : T) : T :=
  if lt a b then b else a.
Definition std_min {T} (lt : T -> T -> bool) (a b : T) : T :=
  if lt b a then b else a.

(** [std::vector<T> z(x); std::transform(..., [](a, b) { return std::max(a, b); })] *)
Definition max {T} (lt : T -> T -> bool) (x y : list T) : outcome (list T) :=
  binary_elementwise (fun a b => Ok (std_max lt a b)) x y.

(** [std::vector<T> z(x); std::transform(..., [](a, b) { return std::min(a, b); })] *)
Definition min {T} (lt : T -> T -> bool) (x y : list T) : outcome (list T) :=
  binary_elementwise (fun a b => Ok (std_min lt a b)) x y.

(** ** Statement helpers *)

(** [r] is a normal return [z] of [x]'s length with [z[i] = f(x[i], y[i])]
    at every index where both operands have an element. *)
Definition elementwise {A B C} (f : A -> B -> C) (x : list A) (y : list B)
    (r : outcome (list C)) : Prop :=
  exists z, r = Ok z /\ length z = length x /\
    (forall i a b, x !! i = Some a -> y !! i = Some b -> z !! i = Some (f a b)).

(** * Properties *)

(** ** [std::vector] primitives and [std::transform] *)

Section VectorFacts.
Local Open Scope nat_scope.

Lemma at_lt {A} (v : list A) i : i < length v -> exists a, v !! i = Some a /\ at_ v i = Ok a.
Proof.
  intros Hi. destruct (lookup_lt_is_Some_2 v i Hi) as [a Ha].
  exists a. unfold at_. rewrite Ha. auto.
Qed.

Lemma at_ge {A} (v : list A) i : length v <= i -> at_ v i = Undefined.
Proof. intros Hi. unfold at_. rewrite lookup_ge_None_2; auto. Qed.

Lemma at_no_throw {A} (v : list A) i e : at_ v i <> Throw e.
Proof. unfold at_. destruct (v !! i); discriminate. Qed.

Lemma store_lt {A} (v : list A) i a : i < length v -> store v i a = Ok (<[i := a]> v).
Proof. intros Hi. unfold store. rewrite decide_True; auto. Qed.

(** With a pure operator and long enough operands, [transform] writes
    [f x[j] y[j]] at every [j] of its range and leaves [z] elsewhere. *)
Lemma transform_loop_pure {A B C} (f : A -> B -> C) x y :
  forall k i (z : list C),
  i + k <= length x -> i + k <= length y -> i + k <= length z ->
  exists z', transform_loop (fun a b => Ok (f a b)) x y z i k = Ok z' /\
    length z' = length z /\
    (forall j, (j < i \/ i + k <= j) -> z' !! j = z !! j) /\
    (forall j a b, i <= j < i + k -> x !! j = Some a -> y !! j = Some b ->
       z' !! j = Some (f a b)).
Proof.
  induction k as [|k IH]; intros i z Hx Hy Hz; simpl.
  - exists z. repeat split; auto. intros j a b Hj. lia.
  - destruct (at_lt x i) as (a & Ha & ->); [lia|].
    destruct (at_lt y i) as (b & Hb & ->); [lia|].
    simpl. rewrite store_lt by lia. simpl.
    destruct (IH (S i) (<[i := f a b]> z)) as (z' & Hrun & Hlen & Hout & Hin);
      [lia | lia | rewrite length_insert; lia |].
    exists z'. split; [exact Hrun|]. split; [rewrite Hlen, length_insert; auto|].
    split.
    + intros j Hj. rewrite Hout by lia. apply list_lookup_insert_ne. lia.
    + intros j a' b' Hj Ha' Hb'.
      destruct (decide (j = i)) as [->|Hne].
      * rewrite Hout by lia. rewrite Ha in Ha'. rewrite Hb in Hb'.
        injection Ha' as <-. injection Hb' as <-.
        apply list_lookup_insert_eq. lia.
      * apply Hin; auto. lia.
Qed.

(** An operator that never throws, undefined at some index of the range,
    makes the whole loop undefined. *)
Lemma transform_loop_undefined {A B C} (op : A -> B -> outcome C) x y j a b :
  (forall a b e, op a b <> Throw e) ->
  x !! j = Some a -> y !! j = Some b -> op a b = Undefined ->
  forall k i (z : list C), i <= j < i + k -> i + k <= length z ->
  transform_loop op x y z i k = Undefined.
Proof.
  intros Hop Ha Hb Hab. induction k as [|k IH]; intros i z Hj Hz; [lia|].
  simpl. assert (Hjx : j < length x) by (apply lookup_lt_is_Some_1; eauto).
  destruct (at_lt x i) as (a' & Ha' & ->); [lia|]. simpl.
  destruct (decide (j = i)) as [->|Hne].
  - unfold at_ at 1. rewrite Hb. simpl. rewrite Ha in Ha'. injection Ha' as <-.
    rewrite Hab. reflexivity.
  - unfold at_ at 1. destruct (y !! i) as [b'|]; simpl; [|reflexivity].
    destruct (op a' b') as [c| e |] eqn:Hc; simpl.
    + rewrite store_lt by lia. simpl. apply IH; [lia | rewrite length_insert; lia].
    + exfalso. eapply Hop. exact Hc.
    + reflexivity.
Qed.

(** Reading [y] past its end is undefined: a [y] shorter than [x] makes a
    loop over the whole of [x] undefined, for any operator that never
    throws. *)
Lemma transform_loop_short {A B C} (op : A -> B -> outcome C) x (y : list B) :
  (forall a b e, op a b <> Throw e) ->
  forall k i (z : list C), i <= length y < i + k -> i + k <= length x ->
  i + k <= length z ->
  transform_loop op x y z i k = Undefined.
Proof.
  intros Hop. induction k as [|k IH]; intros i z Hy Hx Hz; [lia|].
  simpl. destruct (at_lt x i) as (a & Ha & ->); [lia|]. simpl.
  destruct (decide (i = length y)) as [->|Hne].
  - rewrite at_ge by lia. reflexivity.
  - destruct (at_lt y i) as (b & Hb & ->); [lia|]. simpl.
    destruct (op a b) as [c| e |] eqn:Hc; simpl.
    + rewrite store_lt by lia. simpl. apply IH; [lia | lia | rewrite length_insert; lia].
    + exfalso. eapply Hop. exact Hc.
    + reflexivity.
Qed.
End VectorFacts.

(** ** Elementwise operations *)

Section ElementwiseFacts.
Local Open Scope nat_scope.

Lemma binary_elementwise_pure {T} (f : T -> T -> T) (x y : list T) :
  length x <= length y ->
  exists z, binary_elementwise (fun a b => Ok (f a b)) x y = Ok z /\
    length z = length x /\
    (forall i a b, x !! i = Some a -> y !! i = Some b -> z !! i = Some (f a b)).
Proof.
  intros Hxy. unfold binary_elementwise, transform.
  destruct (transform_loop_pure f x y (length x) 0 x) as (z & Hrun & Hlen & _ & Hin);
    [lia | lia | lia |].
  exists z. split; [exact Hrun|]. split; [exact Hlen|].
  intros i a b Ha Hb. apply Hin; auto.
  split; [lia|]. apply lookup_lt_is_Some_1. eauto.
Qed.

Lemma binary_elementwise_short {T} (op : T -> T -> outcome T) (x y : list T) :
  (forall a b e, op a b <> Throw e) -> length y < length x ->
  binary_elementwise op x y = Undefined.
Proof.
  intros Hop Hxy. unfold binary_elementwise, transform.
  apply transform_loop_short; auto; lia.
Qed.

Lemma compare_pure {T} (Compare : T -> T -> bool) (x y : list T) :
  length x <= length y ->
  exists z, compare Compare x y = Ok z /\ length z = length x /\
    (forall i a b, x !! i = Some a -> y !! i = Some b ->
       z !! i = Some (Compare a b)).
Proof.
  intros Hxy. unfold compare, transform.
  destruct (transform_loop_pure Compare x y (length x) 0
              (replicate (length x) false)) as (z & Hrun & Hlen & _ & Hin);
    [lia | lia | rewrite length_replicate; lia |].
  exists z. split; [exact Hrun|]. split; [rewrite Hlen, length_replicate; auto|].
  intros i a b Ha Hb. apply Hin; auto.
  split; [lia|]. apply lookup_lt_is_Some_1. eauto.
Qed.

Lemma compare_short {T} (Compare : T -> T -> bool) (x y : list T) :
  length y < length x -> compare Compare x y = Undefined.
Proof.
  intros Hxy. unfold compare, transform.
  apply transform_loop_short; [discriminate | lia | lia |].
  rewrite length_replicate. lia.
Qed.

Lemma select_loop_pure {T} (s : list bool) (x y : list T) :
  forall k i (z : list T),
  i + k <= length s -> i + k <= length x -> i + k <= length y ->
  i + k <= length z ->
  exists z', select_loop s x y z i k = Ok z' /\ length z' = length z /\
    (forall j (c : bool) a b, i <= j < i + k -> s !! j = Some c -> x !! j = Some a ->
       y !! j = Some b -> z' !! j = Some (if c then a else b)).
Proof.
  induction k as [|k IH]; intros i z Hs Hx Hy Hz; simpl.
  - exists z. repeat split; auto. intros j c a b Hj. lia.
  - destruct (at_lt s i) as (c & Hc & ->); [lia|]. simpl.
    destruct (at_lt x i) as (a & Ha & Hxa); [lia|].
    destruct (at_lt y i) as (b & Hb & Hyb); [lia|].
    assert (Hv : (if c then at_ x i else at_ y i) = Ok (if c then a else b))
      by (destruct c; auto).
    rewrite Hv. simpl. rewrite store_lt by lia. simpl.
    destruct (IH (S i) (<[i := if c then a else b]> z))
      as (z' & Hrun & Hlen & Hin);
      [lia | lia | lia | rewrite length_insert; lia |].
    exists z'. split; [exact Hrun|]. split; [rewrite Hlen, length_insert; auto|].
    intros j c' a' b' Hj Hc' Ha' Hb'.
    destruct (decide (j = i)) as [->|Hne].
    + (* index [i] is not written again by the rest of the loop *)
      clear Hin. revert Hrun. clear IH.
      assert (Hkeep : forall k' i' w w', S i <= i' ->
                select_loop s x y w i' k' = Ok w' -> w' !! i = w !! i).
      { induction k' as [|k' IHk]; intros i' w w' Hi' Hr; simpl in Hr.
        - injection Hr as <-. reflexivity.
        - destruct (at_ s i') as [c''| e |]; simpl in Hr; try discriminate.
          destruct (if c'' then at_ x i' else at_ y i') as [v| e |];
            simpl in Hr; try discriminate.
          unfold store in Hr. destruct (decide (i' < length w)); simpl in Hr;
            [|discriminate].
          assert (Hi'' : S i <= S i') by lia.
          rewrite (IHk (S i') _ _ Hi'' Hr).
          apply list_lookup_insert_ne. lia. }
      intros Hrun. assert (Hsi : S i <= S i) by lia.
      rewrite (Hkeep _ _ _ _ Hsi Hrun).
      rewrite Hc in Hc'. rewrite Ha in Ha'. rewrite Hb in Hb'.
      injection Hc' as <-. injection Ha' as <-. injection Hb' as <-.
      apply list_lookup_insert_eq. lia.
    + apply Hin; auto. lia.
Qed.

(** A mask shorter than the loop's range is read out of bounds. *)
Lemma select_loop_short_mask {T} (s : list bool) (x y : list T) :
  forall k i (z : list T), i <= length s < i + k -> i + k <= length z ->
  select_loop s x y z i k = Undefined.
Proof.
  induction k as [|k IH]; intros i z Hs Hz; [lia|]. simpl.
  destruct (decide (i = length s)) as [->|Hne].
  - rewrite (at_ge s) by lia. reflexivity.
  - destruct (at_lt s i) as (c & Hc & ->); [lia|]. simpl.
    destruct (if c then at_ x i else at_ y i) as [v| e |] eqn:Hv; simpl.
    + rewrite store_lt by lia. simpl. apply IH; [lia | rewrite length_insert; lia].
    + exfalso. destruct c; eapply at_no_throw; exact Hv.
    + reflexivity.
Qed.

Lemma int_divides_no_throw t a b e : int_divides t a b <> Throw e.
Proof.
  unfold int_divides. destruct (b =? 0)%Z; [discriminate|].
  destruct (in_range _ _); discriminate.
Qed.
End ElementwiseFacts.

(** ** Integral types *)

Lemma pow_bits_split (b : Z) : (1 <= b)%Z -> (2 ^ b = 2 * 2 ^ (b - 1))%Z.
Proof.
  intros Hb. replace b with (Z.succ (b - 1)) at 1 by lia.
  rewrite Z.pow_succ_r by lia. reflexivity.
Qed.

Lemma cast_small (t : int_type) (z : Z) :
  (1 <= bits t)%Z -> in_range t z = true -> cast t z = z.
Proof.
  intros Hb Hz. unfold in_range, int_min, int_max, cast in *.
  apply andb_prop in Hz as [H1 H2]. apply Z.leb_le in H1, H2.
  pose proof (pow_bits_split (bits t) Hb) as Hp.
  pose proof (Z.pow_pos_nonneg 2 (bits t - 1) ltac:(lia) ltac:(lia)).
  destruct (signed t).
  - rewrite Z.mod_small by lia. lia.
  - apply Z.mod_small. lia.
Qed.

Lemma int_min_max (t : int_type) :
  (1 <= bits t)%Z ->
  in_range t (int_min t) = true /\ in_range t (int_max t) = true /\
  (int_min t < int_max t)%Z.
Proof.
  intros Hb. unfold in_range, int_min, int_max.
  pose proof (pow_bits_split (bits t) Hb) as Hp.
  pose proof (Z.pow_pos_nonneg 2 (bits t - 1) ltac:(lia) ltac:(lia)).
  destruct (signed t); repeat split; try apply andb_true_intro; try split;
    apply Z.leb_le || idtac; lia.
Qed.

(** The range of a type narrower than [int] lies inside [int]'s range. *)
Lemma in_range_promoted (t : int_type) (z : Z) :
  (1 <= bits t)%Z -> in_range t z = true -> in_range (promoted t) z = true.
Proof.
  intros Hb Hz. unfold promoted.
  destruct (Z.ltb_spec (bits t) 32) as [Hlt|]; [|exact Hz].
  unfold in_range, int_min, int_max in *. simpl.
  apply andb_prop in Hz as [H1 H2]. apply Z.leb_le in H1, H2.
  assert (Hm : (2 ^ (bits t - 1) <= 2 ^ 31)%Z) by (apply Z.pow_le_mono_r; lia).
  assert (Hm' : (2 ^ bits t <= 2 ^ 31)%Z) by (apply Z.pow_le_mono_r; lia).
  apply andb_true_intro. rewrite !Z.leb_le.
  destruct (signed t); change (2 ^ (32 - 1))%Z with (2 ^ 31)%Z; lia.
Qed.

Lemma minus_one_ok (t : int_type) (high : Z) :
  (1 <= bits t)%Z -> in_range t (high - 1) = true ->
  minus_one t high = Ok (high - 1)%Z.
Proof.
  intros Hb Hr. unfold minus_one.
  rewrite (in_range_promoted t _ Hb Hr). simpl.
  rewrite andb_false_r. rewrite cast_small; auto.
Qed.

(** ** Random sampling *)

Section RandomFacts.
Context {G : Type}.
Variable uniform_int : Z -> Z -> G -> Z * G.
(** [uniform_int_distribution<T>(a, b)] produces values in [[a, b]]. *)
Hypothesis uniform_int_range :
  forall a b g, (a <= b)%Z -> (a <= fst (uniform_int a b g) <= b)%Z.

Lemma sample_loop_all {A} (P : A -> Prop) (draw : G -> A * G) :
  (forall g, P (fst (draw g))) ->
  forall k i (result : list A) g r,
  (i + k = length result)%nat ->
  (forall j v, (j < i)%nat -> result !! j = Some v -> P v) ->
  sample_loop draw result g i k = Ok r -> Forall P r.
Proof.
  intros HP. induction k as [|k IH]; intros i result g r Hk Hold Hrun; simpl in Hrun.
  - injection Hrun as <-. apply Forall_lookup. intros j v Hj.
    apply (Hold j v); auto.
    assert (j < length result)%nat by (apply lookup_lt_is_Some_1; eauto). lia.
  - destruct (draw g) as [v g'] eqn:Hd.
    rewrite store_lt in Hrun by lia. simpl in Hrun.
    apply (IH (S i) (<[i:=v]> result) g'); auto. rewrite length_insert. lia.
    intros j w Hj Hw. destruct (decide (j = i)) as [->|Hne].
    + rewrite list_lookup_insert_eq in Hw by lia. injection Hw as <-.
      specialize (HP g). rewrite Hd in HP. exact HP.
    + rewrite list_lookup_insert_ne in Hw by lia. apply (Hold j); auto. lia.
Qed.

(** Every sample of [rng_uniform] lies in [[low, high)]. *)
Lemma rng_uniform_int_range (t : int_type) (low high : Z) shape g r :
  (1 <= bits t)%Z -> in_range t low = true -> in_range t high = true ->
  (low < high)%Z ->
  rng_uniform_int uniform_int t low high shape g = Ok r ->
  Forall (fun v => low <= v < high)%Z r.
Proof.
  intros Hb Hlow Hhigh Hlh Hrun. unfold rng_uniform_int in Hrun.
  destruct (accumulate_shape shape) as [n| e |]; simpl in Hrun; try discriminate.
  rewrite minus_one_ok in Hrun; auto.
  2:{ unfold in_range in *. apply andb_prop in Hlow as [H1 H2], Hhigh as [H3 H4].
      apply Z.leb_le in H1, H2, H3, H4. apply andb_true_intro.
      rewrite !Z.leb_le. lia. }
  simpl in Hrun. destruct (Z.leb_spec low (high - 1)); [|lia]. simpl in Hrun.
  unfold vector_sized in Hrun. destruct (n <? 0)%Z; simpl in Hrun; [discriminate|].
  eapply Forall_impl.
  - eapply (sample_loop_all (fun v => low <= v <= high - 1)%Z); [| | | exact Hrun].
    + intros g'. apply uniform_int_range. lia.
    + rewrite length_replicate. reflexivity.
    + intros j v Hj. lia.
  - simpl. intros v Hv. lia.
Qed.
End RandomFacts.

Lemma broadcast_loop_app {T} (x : list T) :
  forall k (z : list T), broadcast_loop x z k = z ++ concat (replicate k x).
Proof.
  induction k as [|k IH]; intros z; simpl.
  - rewrite app_nil_r. reflexivity.
  - rewrite IH, <- app_assoc. reflexivity.
Qed.

Lemma length_concat_replicate {T} (x : list T) (n : nat) :
  length (concat (replicate n x)) = (n * length x)%nat.
Proof. induction n as [|n IH]; simpl; [reflexivity|]. rewrite length_app, IH. lia. Qed.

(** * Claims *)

(** C1 (abs, complex to real): [z.reserve(x.size())] leaves [z] empty, so
    the loop bounded by [z.size()] never runs and the complex overload of
    [abs] returns an empty vector for every input, e.g. [[3+4i]] gives [[]]
    instead of [[5]]. *)
Theorem abs_complex_returns_empty {T} (cabs : complex T -> T)
    (x : list (complex T)) :
  abs_complex cabs x = Ok [].
Proof. reflexivity. Qed.

(** C2 (length mismatch), counterexample: operands of unequal length give a
    result, not a LengthMismatch failure. *)
Lemma add_compare_select_mismatch_produce_result :
  add Z.add [1] [10; 20] = Ok [11] /\
  compare Z.eqb [1] [1; 2] = Ok [true] /\
  select 0 [true; false; true] [1] [10] = Ok [1].
Proof. repeat split; reflexivity. Qed.

(** C2 (length mismatch), amended: [add], [compare] and [select] never
    check lengths.  [add] and [compare] return a result of [x]'s length
    computed from the first [len(x)] elements of [y] when [y] is at least as
    long, and read [y] out of bounds (undefined behaviour) when it is
    shorter; [select] returns a result of [x]'s length when mask and [y] are
    at least as long as [x], and reads the mask out of bounds (undefined
    behaviour) when it is shorter than [x]. *)
Theorem add_compare_select_no_length_check :
  (forall T (plus : T -> T -> T) (x y : list T),
     (length x <= length y)%nat -> elementwise plus x y (add plus x y)) /\
  (forall T (plus : T -> T -> T) (x y : list T),
     (length y < length x)%nat -> add plus x y = Undefined) /\
  (forall T (Compare : T -> T -> bool) (x y : list T),
     (length x <= length y)%nat -> elementwise Compare x y (compare Compare x y)) /\
  (forall T (Compare : T -> T -> bool) (x y : list T),
     (length y < length x)%nat -> compare Compare x y = Undefined) /\
  (forall T (dflt : T) (s : list bool) (x y : list T),
     (length x <= length s)%nat -> (length x <= length y)%nat ->
     exists z, select dflt s x y = Ok z /\ length z = length x /\
       (forall i (c : bool) a b, s !! i = Some c -> x !! i = Some a ->
          y !! i = Some b -> z !! i = Some (if c then a else b))) /\
  (forall T (dflt : T) (s : list bool) (x y : list T),
     (length s < length x)%nat -> select dflt s x y = Undefined).
Proof.
  split; [|split; [|split; [|split; [|split]]]].
  - intros T plus x y Hxy. exact (binary_elementwise_pure plus x y Hxy).
  - intros T plus x y Hxy. apply binary_elementwise_short; [discriminate | exact Hxy].
  - intros T Compare x y Hxy. exact (compare_pure Compare x y Hxy).
  - intros T Compare x y Hxy. exact (compare_short Compare x y Hxy).
  - intros T dflt s x y Hs Hy. unfold select.
    destruct (select_loop_pure s x y (length (replicate (length x) dflt)) 0
                (replicate (length x) dflt)) as (z & Hrun & Hlen & Hin);
      rewrite ?length_replicate; try lia.
    rewrite length_replicate in Hrun, Hlen, Hin.
    exists z. split; [exact Hrun|]. split; [exact Hlen|].
    intros i c a b Hc Ha Hb. apply Hin; auto. split; [lia|].
    apply lookup_lt_is_Some_1. eauto.
  - intros T dflt s x y Hs. unfold select.
    apply select_loop_short_mask; rewrite length_replicate; lia.
Qed.

Lemma add_compare_select_no_length_check_witness :
  (length [1; 2] <= length [10; 20; 30])%nat /\
  elementwise Z.add [1; 2] [10; 20; 30] (add Z.add [1; 2] [10; 20; 30]).
Proof.
  split; [simpl; lia|].
  apply (proj1 add_compare_select_no_length_check). simpl. lia.
Defined.

(** C3 (div), counterexample: an integer zero divisor is C++ integer
    division by zero, undefined behaviour, not a DivisionByZero failure. *)
Lemma div_int_zero_undefined :
  div (int_divides int32_t) [1] [0] = Undefined.
Proof. reflexivity. Qed.

(** C3 (div), amended: [div] performs no zero check.  On an integral element
    type a zero divisor [y[i]] (with [x] and [y] of equal length) makes the
    call undefined behaviour; on [double] each result element is the IEEE754
    quotient [x[i] / y[i]] ([1/0 = +inf], [-1/0 = -inf], [0/0 = NaN]) and
    the call returns normally for equal-length inputs. *)
Theorem div_no_zero_check :
  (forall (t : int_type) (x y : list Z) j,
     length x = length y -> y !! j = Some 0 ->
     div (int_divides t) x y = Undefined) /\
  (forall x y : list float,
     length x = length y -> elementwise PrimFloat.div x y (div float_divides x y)) /\
  PrimFloat.div 1 0 = infinity /\
  PrimFloat.div (-1) 0 = neg_infinity /\
  PrimFloat.is_nan (PrimFloat.div 0 0) = true.
Proof.
  split; [|split; [|repeat split; reflexivity]].
  - intros t x y j Hlen Hj.
    assert (Hjx : (j < length x)%nat)
      by (rewrite Hlen; apply lookup_lt_is_Some_1; eauto).
    destruct (lookup_lt_is_Some_2 x j Hjx) as [a Ha].
    unfold div, binary_elementwise, transform.
    apply (transform_loop_undefined (int_divides t) x y j a 0);
      auto using int_divides_no_throw; lia.
  - intros x y Hlen. apply binary_elementwise_pure. lia.
Qed.

Lemma div_no_zero_check_witness :
  length [7; 8] = length [2; 0] /\ [2; 0] !! 1%nat = Some 0 /\
  div (int_divides int32_t) [7; 8] [2; 0] = Undefined.
Proof.
  split; [reflexivity|]. split; [reflexivity|].
  apply (proj1 div_no_zero_check int32_t [7; 8] [2; 0] 1%nat); reflexivity.
Defined.

(** C6 (add, sub, mul): on operands of equal length [n] each returns a
    sequence of length [n] whose [i]-th element is [x[i] + y[i]],
    [x[i] - y[i]] and [x[i] * y[i]] respectively. *)
Theorem add_sub_mul_elementwise {T} (plus minus multiplies : T -> T -> T)
    (x y : list T) :
  length x = length y ->
  elementwise plus x y (add plus x y) /\
  elementwise minus x y (sub minus x y) /\
  elementwise multiplies x y (mul multiplies x y).
Proof.
  intros Hlen.
  repeat split; apply binary_elementwise_pure; lia.
Qed.

Lemma add_sub_mul_elementwise_witness :
  length [1; 2] = length [10; 20] /\
  elementwise Z.add [1; 2] [10; 20] (add Z.add [1; 2] [10; 20]) /\
  elementwise Z.sub [1; 2] [10; 20] (sub Z.sub [1; 2] [10; 20]) /\
  elementwise Z.mul [1; 2] [10; 20] (mul Z.mul [1; 2] [10; 20]).
Proof.
  split; [reflexivity|].
  apply (add_sub_mul_elementwise Z.add Z.sub Z.mul [1; 2] [10; 20]).
  reflexivity.
Defined.

(** C7 (broadcast_in_dim): the result is [n] copies of [x] one after the
    other, of length [n * len(x)]; [broadcast_in_dim([1,2], 3)] is
    [[1,2,1,2,1,2]]. *)
Theorem broadcast_in_dim_repeats :
  (forall T (x : list T) (n : nat),
     broadcast_in_dim x n = concat (replicate n x) /\
     length (broadcast_in_dim x n) = (n * length x)%nat) /\
  broadcast_in_dim [1; 2] 3 = [1; 2; 1; 2; 1; 2].
Proof.
  split; [|reflexivity].
  intros T x n. unfold broadcast_in_dim. rewrite broadcast_loop_app. simpl.
  split; [reflexivity|]. apply length_concat_replicate.
Qed.

(** C8 (concatenate): [x] followed by [y]; associative when chained in the
    same order; not commutative. *)
Theorem concatenate_append_assoc_noncomm :
  (forall T (x y : list T), concatenate x y = x ++ y) /\
  (forall T (x y z : list T),
     concatenate (concatenate x y) z = concatenate x (concatenate y z)) /\
  concatenate [1; 2] [3; 4] = [1; 2; 3; 4] /\
  (exists x y : list Z, concatenate x y <> concatenate y x).
Proof.
  split; [reflexivity|]. split.
  - intros T x y z. unfold concatenate. rewrite app_assoc. reflexivity.
  - split; [reflexivity|]. exists [1], [2]. discriminate.
Qed.

(** C9 (compare), counterexample: with [std::equal_to<double>], a NaN
    element is not equal to itself, so [compare(x, x, Equal)] is not all
    [true]. *)
Lemma compare_equal_nan :
  compare PrimFloat.eqb [nan] [nan] = Ok [false].
Proof. reflexivity. Qed.

(** C9 (compare), amended: [compare(x, x, Equal)] is [n] times [true] when
    every element of [x] is equal to itself under the predicate (integers,
    floating values other than NaN); for equal-length inputs the mask has
    the inputs' length and [mask[i] = Compare(x[i], y[i])]. *)
Theorem compare_per_index :
  (forall T (Compare : T -> T -> bool) (x : list T),
     (forall a, a ∈ x -> Compare a a = true) ->
     compare Compare x x = Ok (replicate (length x) true)) /\
  (forall T (Compare : T -> T -> bool) (x y : list T),
     length x = length y -> elementwise Compare x y (compare Compare x y)).
Proof.
  split.
  - intros T Compare x Hrefl.
    destruct (compare_pure Compare x x ltac:(lia)) as (z & -> & Hlen & Hin).
    f_equal. apply list_eq. intros i.
    destruct (x !! i) as [a|] eqn:Ha.
    + rewrite (Hin i a a Ha Ha).
      rewrite lookup_replicate_2.
      * f_equal. apply Hrefl. apply list_elem_of_lookup. eauto.
      * apply lookup_lt_is_Some_1. eauto.
    + apply lookup_ge_None_1 in Ha.
      rewrite !lookup_ge_None_2; rewrite ?length_replicate; auto; lia.
  - intros T Compare x y Hlen. apply compare_pure. lia.
Qed.

Lemma compare_per_index_witness :
  (forall a, a ∈ [1; 2; 3] -> Z.eqb a a = true) /\
  compare Z.eqb [1; 2; 3] [1; 2; 3] = Ok [true; true; true].
Proof.
  split; [intros a _; apply Z.eqb_refl|].
  apply (proj1 compare_per_index Z Z.eqb [1; 2; 3]).
  intros a _. apply Z.eqb_refl.
Defined.

(** C4 (rng_uniform, integral): [std::accumulate] starts from the [int]
    [1], so the sample count is the shape's product converted to [int]:
    for the shape [[65536, 65536]] (2^32 elements) the count is [0] and the
    call returns no sample, whatever the generator draws. *)
Theorem rng_uniform_int_shape_product_truncated {G}
    (uniform_int : Z -> Z -> G -> Z * G) (g : G) :
  accumulate_shape [65536; 65536] = Ok 0 /\
  rng_uniform_int uniform_int int32_t 0 5 [65536; 65536] g = Ok [].
Proof. split; reflexivity. Qed.

(** The state is returned unchanged and the algorithm identifier is not
    used: [rng_bit_generator] is [rng_uniform(min(), max(), {N})]. *)
Lemma rng_bit_generator_int_frame {G} (uniform_int : Z -> Z -> G -> Z * G)
    (t : int_type) (Algorithm Algorithm' N : Z) (state : list Z) (g : G) :
  rng_bit_generator_int uniform_int t Algorithm N state g =
    rng_bit_generator_int uniform_int t Algorithm' N state g /\
  rng_bit_generator_int uniform_int t Algorithm N state g =
    (r ← rng_uniform_int uniform_int t (int_min t) (int_max t) [N] g;
     Ok (state, r)).
Proof. split; reflexivity. Qed.

(** For [double], [std::numeric_limits<double>::min()] is positive: the
    placeholder never draws zero or a negative value. *)
Lemma float_min_positive : PrimFloat.ltb 0 float_min = true.
Proof. reflexivity. Qed.

(** C5 (rng_bit_generator): the state comes back unchanged and the
    algorithm identifier is ignored, but the count [N] goes through the same
    [int] accumulator as [rng_uniform]: for [N = 2^32] no value is
    produced. *)
Theorem rng_bit_generator_int_count_truncated {G}
    (uniform_int : Z -> Z -> G -> Z * G) (Algorithm Algorithm' : Z)
    (state : list Z) (g : G) :
  rng_bit_generator_int uniform_int int32_t Algorithm 4294967296 state g =
    rng_bit_generator_int uniform_int int32_t Algorithm' 4294967296 state g /\
  rng_bit_generator_int uniform_int int32_t Algorithm 4294967296 state g =
    Ok (state, []).
Proof. split; reflexivity. Qed.

(** C10 (rng_bit_generator, integral): every value produced lies in
    [[min(), max())]: [max()] never occurs, since [rng_uniform] draws from
    [[min(), max() - 1]]. *)
Theorem rng_bit_generator_int_below_max {G}
    (uniform_int : Z -> Z -> G -> Z * G)
    (Hdist : forall a b g, a <= b -> a <= fst (uniform_int a b g) <= b)
    (t : int_type) (Algorithm N : Z) (state : list Z) (g : G)
    (newState values : list Z) :
  1 <= bits t ->
  rng_bit_generator_int uniform_int t Algorithm N state g = Ok (newState, values) ->
  Forall (fun v => int_min t <= v < int_max t) values.
Proof.
  intros Hb Hrun. unfold rng_bit_generator_int in Hrun.
  destruct (rng_uniform_int uniform_int t (int_min t) (int_max t) [N] g)
    as [r| e |] eqn:Hr; simpl in Hrun; try discriminate.
  injection Hrun as _ <-.
  destruct (int_min_max t Hb) as (Hmin & Hmax & Hlt).
  exact (rng_uniform_int_range uniform_int Hdist t _ _ [N] g r Hb Hmin Hmax Hlt Hr).
Qed.

Lemma rng_bit_generator_int_below_max_witness :
  rng_bit_generator_int (fun a b (g : nat) => (b, S g)) uint8_t 0 3 [7] 0%nat =
    Ok ([7], [254; 254; 254]) /\
  Forall (fun v => int_min uint8_t <= v < int_max uint8_t) [254; 254; 254].
Proof.
  split; [reflexivity|].
  apply (rng_bit_generator_int_below_max (fun a b (g : nat) => (b, S g))
           ltac:(intros a b g Hab; simpl; lia) uint8_t 0 3 [7] 0%nat [7]).
  - simpl. lia.
  - reflexivity.
Defined.

(** * Further properties of the catalog *)

(** ** Unary loops *)

Lemma unary_loop_map {A B} (f : A -> B) (x : list A) :
  forall k i (z : list B), (i + k = length x)%nat -> length z = length x ->
  (forall j, (j < i)%nat -> z !! j = f <$> x !! j) ->
  unary_loop f x z i k = Ok (f <$> x).
Proof.
  induction k as [|k IH]; intros i z Hk Hz Hpre; simpl.
  - f_equal. apply list_eq. intros j. rewrite list_lookup_fmap.
    destruct (decide (j < i)%nat); [auto|].
    rewrite !lookup_ge_None_2 by lia. reflexivity.
  - destruct (at_lt x i) as (a & Ha & ->); [lia|]. simpl.
    rewrite store_lt by lia. simpl.
    apply IH; [lia | rewrite length_insert; auto |].
    intros j Hj. destruct (decide (j = i)) as [->|Hne].
    + rewrite list_lookup_insert_eq by lia. rewrite Ha. reflexivity.
    + rewrite list_lookup_insert_ne by lia. apply Hpre. lia.
Qed.

Lemma unary_elementwise_map {T} (f : T -> T) (x : list T) :
  unary_elementwise f x = Ok (f <$> x).
Proof. apply unary_loop_map; auto. intros j Hj. lia. Qed.

(** [abs] on a real element type, [cos], [sin] and [sqrt] apply the
    standard function to each element, in place of a copy of [x]. *)
Theorem unary_ops_map :
  forall T (f : T -> T) (x : list T),
  abs f x = Ok (f <$> x) /\ cos f x = Ok (f <$> x) /\
  sin f x = Ok (f <$> x) /\ sqrt f x = Ok (f <$> x).
Proof. intros T f x. repeat split; apply unary_elementwise_map. Qed.

(** ** ConvertOp *)





(** ** MaxOp and MinOp *)

Lemma std_max_Z (a b : Z) : std_max Z.ltb a b = Z.max a b.
Proof. unfold std_max. destruct (Z.ltb_spec a b); lia. Qed.

Lemma std_min_Z (a b : Z) : std_min Z.ltb a b = Z.min a b.
Proof. unfold std_min. destruct (Z.ltb_spec b a); lia. Qed.

(** On integers, [max] and [min] of equal-length sequences are the
    elementwise maximum and minimum. *)
Theorem max_min_Z (x y : list Z) :
  length x = length y ->
  elementwise Z.max x y (max Z.ltb x y) /\ elementwise Z.min x y (min Z.ltb x y).
Proof.
  intros Hlen. split.
  - destruct (binary_elementwise_pure (std_max Z.ltb) x y ltac:(lia))
      as (z & Hz & Hl & Hin).
    exists z. split; [exact Hz|]. split; [exact Hl|].
    intros i a b Ha Hb. rewrite (Hin i a b Ha Hb), std_max_Z. reflexivity.
  - destruct (binary_elementwise_pure (std_min Z.ltb) x y ltac:(lia))
      as (z & Hz & Hl & Hin).
    exists z. split; [exact Hz|]. split; [exact Hl|].
    intros i a b Ha Hb. rewrite (Hin i a b Ha Hb), std_min_Z. reflexivity.
Qed.

Lemma max_min_Z_witness :
  length [1; 7] = length [5; 2] /\
  elementwise Z.max [1; 7] [5; 2] (max Z.ltb [1; 7] [5; 2]) /\
  elementwise Z.min [1; 7] [5; 2] (min Z.ltb [1; 7] [5; 2]).
Proof. split; [reflexivity|]. apply max_min_Z. reflexivity. Defined.

(** A NaN has the NaN specification value. *)
Lemma is_nan_Prim2SF (a : float) :
  PrimFloat.is_nan a = true -> Prim2SF a = S754_nan.
Proof.
  unfold PrimFloat.is_nan. rewrite FloatAxioms.eqb_spec.
  destruct (Prim2SF a) as [s|s| |s m e]; intros H; auto; exfalso;
    unfold SFeqb, SFcompare in H; destruct s; simpl in H;
    rewrite ?Z.compare_refl, ?Pos.compare_cont_refl in H; discriminate.
Qed.

Lemma ltb_nan_l (a b : float) : PrimFloat.is_nan a = true -> PrimFloat.ltb a b = false.
Proof.
  intros Ha. rewrite FloatAxioms.ltb_spec, (is_nan_Prim2SF a Ha). reflexivity.
Qed.

Lemma ltb_nan_r (a b : float) : PrimFloat.is_nan b = true -> PrimFloat.ltb a b = false.
Proof.
  intros Hb. rewrite FloatAxioms.ltb_spec, (is_nan_Prim2SF b Hb).
  unfold SFltb, SFcompare. destruct (Prim2SF a); reflexivity.
Qed.

(** On [double], [max] and [min] return [x[i]] wherever [x[i]] or [y[i]]
    is a NaN: a NaN in [x] propagates, a NaN in [y] is dropped. *)
Theorem max_min_nan (x y : list float) :
  length x = length y ->
  exists zmax zmin, max PrimFloat.ltb x y = Ok zmax /\ min PrimFloat.ltb x y = Ok zmin /\
    (forall i a b, x !! i = Some a -> y !! i = Some b ->
       PrimFloat.is_nan a = true \/ PrimFloat.is_nan b = true ->
       zmax !! i = Some a /\ zmin !! i = Some a).
Proof.
  intros Hlen.
  destruct (binary_elementwise_pure (std_max PrimFloat.ltb) x y ltac:(lia))
    as (zmax & Hmax & _ & Hinmax).
  destruct (binary_elementwise_pure (std_min PrimFloat.ltb) x y ltac:(lia))
    as (zmin & Hmin & _ & Hinmin).
  exists zmax, zmin. split; [exact Hmax|]. split; [exact Hmin|].
  intros i a b Ha Hb Hnan.
  rewrite (Hinmax i a b Ha Hb), (Hinmin i a b Ha Hb).
  unfold std_max, std_min.
  destruct Hnan as [Hn|Hn].
  - rewrite (ltb_nan_l a b Hn), (ltb_nan_r b a Hn). auto.
  - rewrite (ltb_nan_r a b Hn), (ltb_nan_l b a Hn). auto.
Qed.

Lemma max_min_nan_witness :
  length [nan; 1%float] = length [2%float; nan] /\
  max PrimFloat.ltb [nan; 1%float] [2%float; nan] = Ok [nan; 1%float] /\
  min PrimFloat.ltb [nan; 1%float] [2%float; nan] = Ok [nan; 1%float].
Proof.
  split; [reflexivity|].
  destruct (max_min_nan [nan; 1%float] [2%float; nan] eq_refl)
    as (zmax & zmin & Hmax & Hmin & _).
  rewrite Hmax, Hmin. vm_compute in Hmax, Hmin.
  injection Hmax as <-. injection Hmin as <-. split; reflexivity.
Defined.

(** ** BroadcastInDimOp and ConcatenateOp *)

Lemma concat_replicate_add {T} (x : list T) (n m : nat) :
  concat (replicate (n + m) x) = concat (replicate n x) ++ concat (replicate m x).
Proof. induction n as [|n IH]; simpl; [reflexivity|]. rewrite IH, app_assoc. reflexivity. Qed.

(** Broadcasting twice is one broadcast by the product of the counts, and
    concatenating two broadcasts of [x] is a broadcast by their sum. *)
Theorem broadcast_in_dim_compose :
  forall T (x : list T) (n m : nat),
  broadcast_in_dim (broadcast_in_dim x m) n = broadcast_in_dim x (n * m) /\
  concatenate (broadcast_in_dim x n) (broadcast_in_dim x m) =
    broadcast_in_dim x (n + m).
Proof.
  intros T x n m. unfold broadcast_in_dim, concatenate.
  rewrite !broadcast_loop_app. simpl. split.
  - induction n as [|n IH]; simpl; [reflexivity|].
    rewrite IH, concat_replicate_add. reflexivity.
  - rewrite concat_replicate_add. reflexivity.
Qed.

(** ** SelectOp with a constant mask *)

Section SelectFacts.
Local Open Scope nat_scope.

Lemma select_loop_spec {T} (s : list bool) (x y : list T) :
  forall k i (z : list T), i + k <= length z ->
  (forall j, i <= j < i + k -> exists (c : bool) v, s !! j = Some c /\
     (if c then x !! j else y !! j) = Some v) ->
  exists z', select_loop s x y z i k = Ok z' /\ length z' = length z /\
    (forall j, (j < i \/ i + k <= j) -> z' !! j = z !! j) /\
    (forall j (c : bool) v, i <= j < i + k -> s !! j = Some c ->
       (if c then x !! j else y !! j) = Some v -> z' !! j = Some v).
Proof.
  induction k as [|k IH]; intros i z Hz Hread; simpl.
  - exists z. repeat split; auto. intros j c v Hj. lia.
  - destruct (Hread i ltac:(lia)) as (c & v & Hc & Hv).
    assert (Hat : at_ s i = Ok c) by (unfold at_; rewrite Hc; reflexivity).
    assert (Hatv : (if c then at_ x i else at_ y i) = Ok v)
      by (unfold at_; destruct c; rewrite Hv; reflexivity).
    rewrite Hat. simpl. rewrite Hatv. simpl. rewrite store_lt by lia. simpl.
    destruct (IH (S i) (<[i := v]> z)) as (z' & Hrun & Hlen & Hout & Hin);
      [rewrite length_insert; lia | intros j Hj; apply Hread; lia |].
    exists z'. split; [exact Hrun|]. split; [rewrite Hlen, length_insert; auto|].
    split.
    + intros j Hj. rewrite Hout by lia. apply list_lookup_insert_ne. lia.
    + intros j c' v' Hj Hc' Hv'. destruct (decide (j = i)) as [->|Hne].
      * rewrite Hout by lia. rewrite Hc in Hc'. injection Hc' as <-.
        rewrite Hv in Hv'. injection Hv' as <-. apply list_lookup_insert_eq. lia.
      * apply (Hin j c'); auto. lia.
Qed.

(** A mask that is [true] on the first [len(x)] positions makes [select]
    return [x], whatever [y] is (even shorter than [x]: [y] is never read);
    a mask that is [false] there returns the first [len(x)] elements of
    [y], whatever [x] holds. *)
Theorem select_constant_mask {T} (dflt : T) (s : list bool) (x y : list T) :
  length x <= length s ->
  ((forall i, i < length x -> s !! i = Some true) ->
     select dflt s x y = Ok x) /\
  ((forall i, i < length x -> s !! i = Some false) -> length x <= length y ->
     select dflt s x y = Ok (take (length x) y)).
Proof.
  intros Hs. unfold select. rewrite length_replicate. split.
  - intros Htrue.
    destruct (select_loop_spec s x y (length x) 0 (replicate (length x) dflt))
      as (z & Hrun & Hlen & _ & Hin).
    { rewrite length_replicate. lia. }
    { intros j Hj. destruct (lookup_lt_is_Some_2 x j ltac:(lia)) as [a Ha].
      exists true, a. rewrite Htrue by lia. auto. }
    rewrite Hrun. f_equal. apply list_eq. intros j.
    destruct (decide (j < length x)) as [Hj|Hj].
    + destruct (lookup_lt_is_Some_2 x j Hj) as [a Ha]. rewrite Ha.
      apply (Hin j true); [lia | apply Htrue; lia | exact Ha].
    + rewrite length_replicate in Hlen.
      rewrite !lookup_ge_None_2 by lia. reflexivity.
  - intros Hfalse Hy.
    destruct (select_loop_spec s x y (length x) 0 (replicate (length x) dflt))
      as (z & Hrun & Hlen & _ & Hin).
    { rewrite length_replicate. lia. }
    { intros j Hj. destruct (lookup_lt_is_Some_2 y j ltac:(lia)) as [b Hb].
      exists false, b. rewrite Hfalse by lia. auto. }
    rewrite Hrun. f_equal. apply list_eq. intros j.
    destruct (decide (j < length x)) as [Hj|Hj].
    + destruct (lookup_lt_is_Some_2 y j ltac:(lia)) as [b Hb].
      rewrite lookup_take_lt by lia. rewrite Hb.
      apply (Hin j false); [lia | apply Hfalse; lia | exact Hb].
    + rewrite length_replicate in Hlen.
      assert (Ht : length (take (length x) y) <= j).
      { rewrite length_take. pose proof (Nat.le_min_l (length x) (length y)). lia. }
      rewrite (lookup_ge_None_2 z j), (lookup_ge_None_2 _ j Ht) by lia.
      reflexivity.
Qed.
End SelectFacts.

Lemma select_constant_mask_witness :
  (length [1; 2] <= length [true; true])%nat /\
  select 0 [true; true] [1; 2] [] = Ok [1; 2].
Proof.
  split; [simpl; lia|].
  apply (proj1 (select_constant_mask 0 [true; true] [1; 2] [] ltac:(simpl; lia))).
  intros i Hi. destruct i as [|[|i]]; simpl in *; auto; lia.
Defined.

(** ** DivOp on integral types *)

Lemma transform_loop_ext {A B C} (op op' : A -> B -> outcome C) x y :
  forall k i (z : list C),
  (forall j a b, (i <= j < i + k)%nat -> x !! j = Some a -> y !! j = Some b ->
     op a b = op' a b) ->
  transform_loop op x y z i k = transform_loop op' x y z i k.
Proof.
  induction k as [|k IH]; intros i z Hop; simpl; [reflexivity|].
  unfold at_. destruct (x !! i) as [a|] eqn:Ha; simpl; [|reflexivity].
  destruct (y !! i) as [b|] eqn:Hb; simpl; [|reflexivity].
  rewrite (Hop i a b ltac:(lia) Ha Hb).
  destruct (op' a b) as [c| e |]; simpl; try reflexivity.
  destruct (store z i c) as [z'| e |]; simpl; try reflexivity.
  apply IH. intros j a' b' Hj. apply Hop. lia.
Qed.

Lemma quot_abs_le (a b : Z) : b <> 0 -> Z.abs (Z.quot a b) <= Z.abs a.
Proof.
  intros Hb. rewrite <- Z.quot_abs by lia.
  rewrite Z.quot_div_nonneg by lia.
  apply Z.div_le_upper_bound; [lia|]. nia.
Qed.

(** No quotient of two values of [T] overflows, unless [T] is a signed type
    at least as wide as [int]. *)
Lemma int_divides_in_range (t : int_type) (a b : Z) :
  1 <= bits t -> (bits t < 32 \/ signed t = false) ->
  in_range t a = true -> in_range t b = true -> b <> 0 ->
  int_divides t a b = Ok (cast t (Z.quot a b)).
Proof.
  intros Hbits Hnarrow Ha Hb Hb0. unfold int_divides.
  destruct (Z.eqb_spec b 0); [lia|].
  assert (Hq : in_range (promoted t) (Z.quot a b) = true).
  { pose proof (in_range_promoted t a Hbits Ha) as Hpa.
    unfold in_range, int_min, int_max in *.
    apply andb_prop in Ha as [Ha1 Ha2], Hb as [Hb1 Hb2], Hpa as [Hpa1 Hpa2].
    apply Z.leb_le in Ha1, Ha2, Hb1, Hb2, Hpa1, Hpa2.
    apply andb_true_intro. rewrite !Z.leb_le.
    pose proof (quot_abs_le a b Hb0) as Habs.
    destruct (signed t) eqn:Hs.
    - destruct Hnarrow as [Hn|]; [|discriminate].
      unfold promoted in *. destruct (Z.ltb_spec (bits t) 32); [|lia].
      simpl in *. change (2 ^ (32 - 1)) with 2147483648 in *.
      assert (2 ^ (bits t - 1) <= 2 ^ 30) by (apply Z.pow_le_mono_r; lia).
      split; lia.
    - assert (0 <= Z.quot a b) by (apply Z.quot_pos; lia).
      destruct (signed (promoted t)); split; lia. }
  rewrite Hq. reflexivity.
Qed.

(** On an integral type narrower than [int], or unsigned, [div] of values
    of [T] by non-zero divisors is never undefined: each element is the
    quotient truncated toward zero, converted back to [T] (so for [int8_t]
    [-128 / -1] is [-128]). *)
Theorem div_int_narrow (t : int_type) (x y : list Z) :
  1 <= bits t -> (bits t < 32 \/ signed t = false) ->
  length x = length y ->
  Forall (fun a => in_range t a = true) x ->
  Forall (fun b => in_range t b = true /\ b <> 0) y ->
  elementwise (fun a b => cast t (Z.quot a b)) x y (div (int_divides t) x y).
Proof.
  intros Hbits Hnarrow Hlen Hx Hy.
  destruct (binary_elementwise_pure (fun a b => cast t (Z.quot a b)) x y ltac:(lia))
    as (z & Hz & Hl & Hin).
  exists z. split; [|split; auto].
  rewrite <- Hz. unfold div, binary_elementwise, transform.
  apply transform_loop_ext. intros j a b _ Ha Hb.
  rewrite Forall_lookup in Hx, Hy.
  destruct (Hy j b Hb) as [Hbr Hb0].
  apply int_divides_in_range; auto. exact (Hx j a Ha).
Qed.

Lemma div_int_narrow_witness :
  elementwise (fun a b => cast int8_t (Z.quot a b)) [-128; 7] [-1; -2]
    (div (int_divides int8_t) [-128; 7] [-1; -2]) /\
  div (int_divides int8_t) [-128; 7] [-1; -2] = Ok [-128; -3].
Proof.
  split; [|reflexivity].
  apply div_int_narrow; [simpl; lia | left; simpl; lia | reflexivity | |];
    repeat constructor; discriminate.
Defined.

(** On a signed type at least as wide as [int], a position where [x] holds
    [min()] and [y] holds [-1] makes [div] undefined. *)
Theorem div_int_min_minus_one (t : int_type) (x y : list Z) (j : nat) :
  signed t = true -> 32 <= bits t -> length x = length y ->
  x !! j = Some (int_min t) -> y !! j = Some (-1) ->
  div (int_divides t) x y = Undefined.
Proof.
  intros Hs Hw Hlen Hx Hy.
  assert (Hj : (j < length x)%nat) by (apply lookup_lt_is_Some_1; eauto).
  unfold div, binary_elementwise, transform.
  apply (transform_loop_undefined (int_divides t) x y j (int_min t) (-1));
    auto using int_divides_no_throw; try lia.
  unfold int_divides, promoted, in_range, int_min, int_max. rewrite Hs. simpl.
  destruct (Z.ltb_spec (bits t) 32); [lia|].
  assert (Hq : (- 2 ^ (bits t - 1)) ÷ (-1) = 2 ^ (bits t - 1)).
  { change (-1) with (- (1)). rewrite Z.quot_opp_opp, Z.quot_1_r by lia. reflexivity. }
  rewrite Hq, Hs.
  destruct (Z.leb_spec (2 ^ (bits t - 1)) (2 ^ (bits t - 1) - 1)); [lia|].
  rewrite andb_false_r. reflexivity.
Qed.

Lemma div_int_min_minus_one_witness :
  div (int_divides int32_t) [5; -2147483648] [1; -1] = Undefined.
Proof.
  apply (div_int_min_minus_one int32_t _ _ 1%nat); try reflexivity; simpl; lia.
Defined.

(** ** RngUniformOp: sample count and degenerate bounds *)

Lemma accumulate_step_no_throw (shape : list Z) :
  forall acc : outcome Z, (forall e, acc <> Throw e) ->
  forall e, foldl (fun acc d => a ← acc; p ← mul_int64 a d; Ok (cast int32_t p))
              acc shape <> Throw e.
Proof.
  induction shape as [|d l IH]; intros acc Hacc e; simpl; [apply Hacc|].
  apply IH. intros e'. destruct acc as [a| e'' |]; simpl.
  - unfold mul_int64. destruct (in_range int64_t (a * d)); discriminate.
  - exfalso. eapply Hacc. reflexivity.
  - discriminate.
Qed.

Lemma accumulate_shape_no_throw (shape : list Z) e : accumulate_shape shape <> Throw e.
Proof. apply accumulate_step_no_throw. discriminate. Qed.







(** With [high <= low] and [high - 1] representable in [T], the
    distribution [[low, high - 1]] is empty: the call is undefined. *)
Theorem rng_uniform_int_empty_interval {G} (uniform_int : Z -> Z -> G -> Z * G)
    (t : int_type) (low high : Z) (shape : list Z) (g : G) :
  1 <= bits t -> in_range t low = true -> in_range t high = true ->
  int_min t < high -> high <= low ->
  rng_uniform_int uniform_int t low high shape g = Undefined.
Proof.
  intros Hb Hlow Hhigh Hmin Hhl. unfold rng_uniform_int.
  destruct (accumulate_shape shape) as [n| e |] eqn:Hn; simpl; [| |reflexivity].
  - rewrite minus_one_ok; auto.
    + simpl. destruct (Z.leb_spec low (high - 1)); [lia|]. reflexivity.
    + unfold in_range in *. apply andb_prop in Hhigh as [H3 H4].
      apply Z.leb_le in H3, H4. apply andb_true_intro. rewrite !Z.leb_le. lia.
  - exfalso. eapply accumulate_shape_no_throw. exact Hn.
Qed.

Lemma rng_uniform_int_empty_interval_witness :
  rng_uniform_int (fun a b (g : nat) => (a, S g)) int32_t 3 3 [4] 0%nat = Undefined.
Proof.
  apply rng_uniform_int_empty_interval; try reflexivity; simpl; lia.
Defined.

Lemma minus_one_mod (m : Z) : 1 < m -> (-1) mod m = m - 1.
Proof. intros Hm. symmetry. apply (Z.mod_unique (-1) m (-1)); lia. Qed.

(** On a type narrower than [int], or unsigned, [high = min()] makes
    [high - 1] wrap around to [max()]: the call draws from [[low, max()]]
    instead of an empty interval. *)
Theorem rng_uniform_int_high_min_wraps {G} (uniform_int : Z -> Z -> G -> Z * G)
    (t : int_type) (low : Z) (shape : list Z) (g : G) :
  1 <= bits t -> (bits t < 32 \/ signed t = false) -> in_range t low = true ->
  rng_uniform_int uniform_int t low (int_min t) shape g =
    (n ← accumulate_shape shape;
     result ← vector_sized 0 n;
     sample_loop (uniform_int low (int_max t)) result g 0%nat (Z.to_nat n)).
Proof.
  intros Hb Hnarrow Hlow. unfold rng_uniform_int.
  assert (Hm : minus_one t (int_min t) = Ok (int_max t)).
  { pose proof (pow_bits_split (bits t) Hb) as Hp.
    pose proof (Z.pow_pos_nonneg 2 (bits t - 1) ltac:(lia) ltac:(lia)).
    unfold minus_one, promoted, cast, int_min, int_max, in_range.
    destruct (signed t) eqn:Hs.
    - destruct Hnarrow as [Hn|]; [|discriminate].
      destruct (Z.ltb_spec (bits t) 32); [|lia].
      unfold int_min, int_max. cbn [signed bits int32_t].
      assert (2 ^ (bits t - 1) <= 2 ^ 30) by (apply Z.pow_le_mono_r; lia).
      change (2 ^ (32 - 1)) with 2147483648.
      replace (- 2 ^ (bits t - 1) - 1 + 2 ^ (bits t - 1)) with (-1) by lia.
      rewrite (minus_one_mod (2 ^ bits t)) by lia.
      repeat match goal with |- context [?a <=? ?b] =>
        destruct (Z.leb_spec a b); try lia end.
      cbn [negb andb]. f_equal. lia.
    - destruct (Z.ltb_spec (bits t) 32); unfold int_min, int_max;
        cbn [signed bits int32_t];
        change (0 - 1) with (-1); rewrite (minus_one_mod (2 ^ bits t)) by lia.
      + repeat match goal with |- context [?a <=? ?b] =>
          destruct (Z.leb_spec a b); try lia end.
        reflexivity.
      + rewrite Hs. reflexivity. }
  destruct (accumulate_shape shape) as [n| e |]; simpl; try reflexivity.
  rewrite Hm. simpl.
  assert (Hle : low <= int_max t).
  { unfold in_range in Hlow. apply andb_prop in Hlow as [_ H]. apply Z.leb_le in H. exact H. }
  destruct (Z.leb_spec low (int_max t)); [reflexivity|lia].
Qed.

Lemma rng_uniform_int_high_min_wraps_witness :
  rng_uniform_int (fun a b (g : nat) => (b, S g)) uint8_t 0 0 [2] 0%nat = Ok [255; 255].
Proof.
  rewrite (rng_uniform_int_high_min_wraps _ uint8_t 0 [2] 0%nat);
    [reflexivity | simpl; lia | right; reflexivity | reflexivity].
Defined.

(** ** RngBitGeneratorOp on [double] *)

Lemma leb_refl_of_ltb (a b : float) : PrimFloat.ltb a b = true -> PrimFloat.leb a a = true.
Proof.
  rewrite FloatAxioms.ltb_spec, FloatAxioms.leb_spec.
  destruct (Prim2SF a) as [s|s| |s m e]; intros H.
  - destruct s; reflexivity.
  - destruct s; reflexivity.
  - discriminate.
  - unfold SFleb, SFcompare; destruct s; simpl;
      rewrite ?Z.compare_refl, ?Pos.compare_cont_refl; reflexivity.
Qed.

(** For [double], [rng_bit_generator] returns the state unchanged and every
    value lies in [[numeric_limits<double>::min(), max())]; since [min()] is
    the least positive normal value, no value is zero or negative. *)
Theorem rng_bit_generator_real_positive {G}
    (uniform_real : float -> float -> G -> float * G)
    (Hdist : forall a b g, PrimFloat.ltb a b = true ->
       PrimFloat.leb a (fst (uniform_real a b g)) = true /\
       PrimFloat.ltb (fst (uniform_real a b g)) b = true)
    (Algorithm N : Z) (state : list Z) (g : G) newState values :
  rng_bit_generator_real uniform_real Algorithm N state g = Ok (newState, values) ->
  newState = state /\
  Forall (fun v => PrimFloat.leb float_min v = true /\
                   PrimFloat.ltb v float_max = true) values /\
  PrimFloat.ltb 0 float_min = true.
Proof.
  intros Hrun. unfold rng_bit_generator_real, rng_uniform_real in Hrun.
  destruct (accumulate_shape [N]) as [n| e |]; simpl in Hrun; try discriminate.
  unfold vector_sized in Hrun. destruct (n <? 0); simpl in Hrun; [discriminate|].
  destruct (sample_loop (uniform_real float_min float_max)
              (replicate (Z.to_nat n) 0%float) g 0 (Z.to_nat n)) as [r| e |] eqn:Hr;
    simpl in Hrun; try discriminate.
  injection Hrun as <- <-. split; [reflexivity|]. split; [|reflexivity].
  eapply (sample_loop_all
            (fun v => PrimFloat.leb float_min v = true /\ PrimFloat.ltb v float_max = true));
    [| | | exact Hr].
  - intros g'. apply Hdist. reflexivity.
  - rewrite length_replicate. reflexivity.
  - intros j v Hj. lia.
Qed.

Lemma rng_bit_generator_real_positive_witness :
  rng_bit_generator_real (fun a b (g : nat) => (a, S g)) 0 2 [7] 0%nat =
    Ok ([7], [float_min; float_min]) /\
  Forall (fun v => PrimFloat.leb float_min v = true /\
                   PrimFloat.ltb v float_max = true) [float_min; float_min].
Proof.
  split; [reflexivity|].
  apply (proj1 (proj2 (rng_bit_generator_real_positive (fun a b (g : nat) => (a, S g))
    (fun a b g Hab => conj (leb_refl_of_ltb a b Hab) Hab)
    0 2 [7] 0%nat [7] [float_min; float_min] eq_refl))).
Defined.
